(** * App.svelte: a Svelte component bound to an Ably channel

    The component of [src/App.svelte] keeps three variables ([messages],
    [presenceData], [channel]), acquires a realtime channel in [onMount],
    hands two closures to the SDK as listeners, and returns a clean-up
    function that the framework runs when the component is destroyed.

    The embedding follows the script block line by line.  The SDK itself is
    not part of the repository; it is represented by the state of the
    channel objects it hands out (their listener registries), by a log of
    the calls made to it, and by the events through which it calls back into
    the component (message delivery, presence events, promise settlement). *)

From stdpp Require Import base decidable option list sets strings.

Open Scope string_scope.
Open Scope list_scope.

(** ** Data *)

(** A message as the template reads it: [msg.clientId], [msg.data]; [name]
    is the message name ("test-message") or, for a presence message, its
    action ("enter", "leave", "update"). *)
Record Message := mkMessage {
  clientId : string;
  name : string;
  data : string
}.

(** The two closures the component passes to the SDK: the arrow function of
    line 17 and [updatePresence] of line 21. *)
Inductive Listener :=
| OnMessage
| UpdatePresence.

#[global] Instance Listener_eq_dec : EqDecision Listener.
Proof. solve_decision. Defined.

(** What the component passes to [channel.unsubscribe]: a listener, or (as
    line 41 does) the channel handle itself. *)
Inductive JsValue :=
| VListener (l : Listener)
| VChannel (h : nat).

#[global] Instance JsValue_eq_dec : EqDecision JsValue.
Proof. solve_decision. Defined.

(** A channel object of the SDK: the listeners registered with
    [channel.subscribe] and, per presence action, with
    [channel.presence.subscribe]. *)
Record ChannelObj := mkChannel {
  subscriptions : list Listener;
  presence_subscriptions : list (string * Listener)
}.

Definition new_channel : ChannelObj :=
  {| subscriptions := []; presence_subscriptions := [] |}.

(** [TypeError] is what reading a property of [null] throws.  The other
    two are the error names of the specification; the script throws neither. *)
Inductive JsError :=
| TypeError
| PublishError
| PresenceUpdateError.

(** Everything the script does that is visible from outside: calls into the
    SDK and assignments to the component's variables. *)
Inductive Op :=
| NewRealtime (key client : string)
| ChannelsGet (h : nat) (channel_name : string)
| Subscribe (h : nat) (l : Listener)
| PresenceSubscribe (h : nat) (action : string) (l : Listener)
| PresenceEnter (h : nat) (payload : string)
| PresenceGet (h : nat)
| PresenceLeave (h : nat)
| PresenceUnsubscribe (h : nat) (action : string)
| Unsubscribe (h : nat) (v : JsValue)
| Detach (h : nat)
| Publish (h : nat) (msg_name text : string)
| PresenceUpdate (h : nat) (payload : string)
| AssignChannel (h : nat)
| AssignMessages (v : list Message)
| AssignPresenceData (v : list Message).

(** Where an [await] suspends, the rest of the async function waits as one
    of these continuations. *)
Inductive Cont :=
| K_iife_after_enter     (* line 30, resumes at line 31 *)
| K_iife_assign          (* line 31, resumes at the assignment *)
| K_updatePresence.      (* line 22, resumes at the assignment *)

#[global] Instance Cont_eq_dec : EqDecision Cont.
Proof. solve_decision. Defined.

(** The component instance together with the SDK objects it talks to.  Each
    log entry carries the source line it comes from. *)
Record State := mkState {
  messages : list Message;
  presenceData : list Message;
  channel : option nat;
  channels : list ChannelObj;
  tasks : list (nat * Cont);
  next_promise : nat;
  log : list (nat * Op);
  destroy_hook : bool
}.

(** Lines 5-7: a fresh instance. *)
Definition init : State :=
  {| messages := []; presenceData := []; channel := None;
     channels := []; tasks := []; next_promise := 0; log := [];
     destroy_hook := false |}.

Definition set_messages (v : list Message) (s : State) : State :=
  mkState v (presenceData s) (channel s) (channels s) (tasks s)
          (next_promise s) (log s) (destroy_hook s).
Definition set_presenceData (v : list Message) (s : State) : State :=
  mkState (messages s) v (channel s) (channels s) (tasks s)
          (next_promise s) (log s) (destroy_hook s).
Definition set_channel (v : option nat) (s : State) : State :=
  mkState (messages s) (presenceData s) v (channels s) (tasks s)
          (next_promise s) (log s) (destroy_hook s).
Definition set_channels (v : list ChannelObj) (s : State) : State :=
  mkState (messages s) (presenceData s) (channel s) v (tasks s)
          (next_promise s) (log s) (destroy_hook s).
Definition set_tasks (v : list (nat * Cont)) (s : State) : State :=
  mkState (messages s) (presenceData s) (channel s) (channels s) v
          (next_promise s) (log s) (destroy_hook s).
Definition set_next_promise (v : nat) (s : State) : State :=
  mkState (messages s) (presenceData s) (channel s) (channels s) (tasks s)
          v (log s) (destroy_hook s).
Definition set_log (v : list (nat * Op)) (s : State) : State :=
  mkState (messages s) (presenceData s) (channel s) (channels s) (tasks s)
          (next_promise s) v (destroy_hook s).
Definition set_destroy_hook (v : bool) (s : State) : State :=
  mkState (messages s) (presenceData s) (channel s) (channels s) (tasks s)
          (next_promise s) (log s) v.

(** ** A monad for the script: state and exceptions

    A JavaScript statement either completes normally or throws; what it did
    to the state before throwing stays done. *)
Inductive Completion (A : Type) :=
| Normal (a : A)
| Throw (e : JsError).
Arguments Normal {A} a.
Arguments Throw {A} e.

Definition Js (A : Type) : Type := State -> Completion A * State.

Definition ret {A} (a : A) : Js A := fun s => (Normal a, s).
Definition throw {A} (e : JsError) : Js A := fun s => (Throw e, s).
Definition bind {A B} (m : Js A) (k : A -> Js B) : Js B :=
  fun s => match m s with
           | (Normal a, s') => k a s'
           | (Throw e, s') => (Throw e, s')
           end.

Notation "x <- m ;; k" := (bind m (fun x => k))
  (at level 100, m at next level, right associativity).
Notation "m ;; k" := (bind m (fun _ => k))
  (at level 100, right associativity).

Definition read {A} (f : State -> A) : Js A := fun s => (Normal (f s), s).
Definition modify (f : State -> State) : Js unit := fun s => (Normal tt, f s).
Definition exec {A} (m : Js A) (s : State) : State := snd (m s).

(** An [async] function never throws into its caller: an exception in its
    body rejects the promise it returned, which nobody here observes.  The
    event loop treats an exception escaping a callback the same way. *)
Definition async (m : Js unit) : Js unit := fun s => (Normal tt, exec m s).

Fixpoint for_each {A} (f : A -> Js unit) (l : list A) : Js unit :=
  match l with
  | [] => ret tt
  | x :: l' => f x ;; for_each f l'
  end.

Definition emit (line : nat) (op : Op) : Js unit :=
  modify (fun s => set_log (log s ++ [(line, op)]) s).

(** [channel.x]: reading a property of [channel] throws a TypeError while
    the variable is still [null]. *)
Definition deref : Js nat :=
  c <- read channel ;;
  match c with
  | Some h => ret h
  | None => throw TypeError
  end.

(** ** The SDK calls the script makes *)

Definition on_channel (h : nat) (f : ChannelObj -> ChannelObj) : Js unit :=
  modify (fun s => set_channels (alter f h (channels s)) s).

(** [new Ably.Realtime.Promise(...)] followed by [ably.channels.get(name)]:
    a new client, hence a new channel object. *)
Definition channels_get (line : nat) (channel_name : string) : Js nat :=
  fun s => let h := length (channels s) in
           (Normal h,
            set_log (log s ++ [(line, ChannelsGet h channel_name)])
                    (set_channels (channels s ++ [new_channel]) s)).

Definition channel_subscribe (line h : nat) (l : Listener) : Js unit :=
  emit line (Subscribe h l) ;;
  on_channel h (fun c => mkChannel (subscriptions c ++ [l])
                                   (presence_subscriptions c)).

(** [channel.unsubscribe(v)] removes the listener [v]; a value that is not a
    registered listener removes nothing. *)
Definition channel_unsubscribe (line h : nat) (v : JsValue) : Js unit :=
  emit line (Unsubscribe h v) ;;
  on_channel h (fun c =>
    mkChannel (filter (fun l => VListener l <> v) (subscriptions c))
              (presence_subscriptions c)).

Definition presence_subscribe (line h : nat) (action : string)
    (l : Listener) : Js unit :=
  emit line (PresenceSubscribe h action l) ;;
  on_channel h (fun c =>
    mkChannel (subscriptions c) (presence_subscriptions c ++ [(action, l)])).

(** [channel.presence.unsubscribe(action)] removes every listener of that
    action. *)
Definition presence_unsubscribe (line h : nat) (action : string) : Js unit :=
  emit line (PresenceUnsubscribe h action) ;;
  on_channel h (fun c =>
    mkChannel (subscriptions c)
              (filter (fun al => al.1 <> action) (presence_subscriptions c))).

(** [await e]: the promise gets the next identifier and the rest of the
    function is parked until the SDK settles it.  Promises the script drops
    (the results of leave, detach, publish, update) are not represented:
    nothing in the component can observe them. *)
Definition await (k : Cont) : Js unit :=
  modify (fun s => set_next_promise (S (next_promise s))
                     (set_tasks (tasks s ++ [(next_promise s, k)]) s)).

(** ** The script *)

(** Lines 21-23; the part after the [await] is [K_updatePresence]. *)
Definition updatePresence : Js unit :=
  async (h <- deref ;; emit 22 (PresenceGet h) ;; await K_updatePresence).

(** Lines 17-19 and 21-23 as the SDK calls them. *)
Definition call_listener (l : Listener) (m : Message) : Js unit :=
  match l with
  | OnMessage =>
      async (ms <- read messages ;;
             modify (set_messages (ms ++ [m])) ;;
             emit 18 (AssignMessages (ms ++ [m])))
  | UpdatePresence => updatePresence
  end.

(** Lines 25-32, up to the first [await]. *)
Definition iife : Js unit :=
  async (h <- deref ;; presence_subscribe 26 h "enter" UpdatePresence ;;
         h <- deref ;; presence_subscribe 27 h "leave" UpdatePresence ;;
         h <- deref ;; presence_subscribe 28 h "update" UpdatePresence ;;
         h <- deref ;; emit 30 (PresenceEnter h "") ;;
         await K_iife_after_enter).

(** What runs when a parked continuation is resumed with value [v]. *)
Definition resume (k : Cont) (v : list Message) : Js unit :=
  match k with
  | K_iife_after_enter =>
      async (h <- deref ;; emit 31 (PresenceGet h) ;; await K_iife_assign)
  | K_iife_assign =>
      async (modify (set_presenceData v) ;; emit 31 (AssignPresenceData v))
  | K_updatePresence =>
      async (modify (set_presenceData v) ;; emit 22 (AssignPresenceData v))
  end.

(** Lines 34-43: the function [onMount]'s callback returns. *)
Definition cleanup : Js unit :=
  h <- deref ;; emit 35 (PresenceLeave h) ;;
  h <- deref ;; presence_unsubscribe 36 h "enter" ;;
  h <- deref ;; presence_unsubscribe 37 h "leave" ;;
  h <- deref ;; presence_unsubscribe 38 h "update" ;;
  modify (set_presenceData []) ;; emit 39 (AssignPresenceData []) ;;
  h <- deref ;; channel_unsubscribe 41 h (VChannel h) ;;
  h <- deref ;; emit 42 (Detach h).

(** Lines 9-44: the callback given to [onMount]. *)
Definition onMount : Js unit :=
  emit 10 (NewRealtime "your-api-key-here" "someid") ;;
  h <- channels_get 15 "your-channel-name" ;;
  modify (set_channel (Some h)) ;; emit 15 (AssignChannel h) ;;
  h <- deref ;; channel_subscribe 17 h OnMessage ;;
  iife ;;
  modify (set_destroy_hook true).

(** Lines 46-48. *)
Definition sendMessage : Js unit :=
  h <- deref ;; emit 47 (Publish h "test-message" "message text").

(** Lines 50-52. *)
Definition update (text : string) : Js unit :=
  h <- deref ;; emit 51 (PresenceUpdate h text).

(** ** The event loop

    JavaScript runs one callback at a time.  What the framework, the SDK and
    the user do to the component is a sequence of events, each handled to
    completion before the next. *)

Inductive Event :=
| Mount                                   (* the framework mounts the component *)
| Unmount                                 (* the framework destroys it *)
| DeliverMessage (h : nat) (m : Message)  (* a message arrives on channel h *)
| PresenceEvent (h : nat) (m : Message)   (* a presence event, action [name m] *)
| Resolve (p : nat) (v : list Message)    (* promise p is fulfilled with v *)
| Reject (p : nat)                        (* promise p is rejected *)
| ClickSend                               (* line 58 *)
| ClickUpdate.                            (* line 59 *)

(** The continuation waiting for promise [p], if any. *)
Fixpoint lookup_task (p : nat) (ts : list (nat * Cont)) : option Cont :=
  match ts with
  | [] => None
  | (q, k) :: ts' => if decide (q = p) then Some k else lookup_task p ts'
  end.

Definition remove_task (p : nat) (ts : list (nat * Cont)) : list (nat * Cont) :=
  filter (fun t => t.1 <> p) ts.

(** The SDK calls every listener subscribed to channel [h] with [m]. *)
Definition dispatch_message (h : nat) (m : Message) : Js unit :=
  fun s => match channels s !! h with
           | Some c => for_each (fun l => call_listener l m) (subscriptions c) s
           | None => (Normal tt, s)
           end.

(** The SDK calls the presence listeners of channel [h] that were
    subscribed for the action of [m]. *)
Definition dispatch_presence (h : nat) (m : Message) : Js unit :=
  fun s => match channels s !! h with
           | Some c =>
               for_each (fun al => call_listener al.2 m)
                        (filter (fun al => al.1 = name m)
                                (presence_subscriptions c)) s
           | None => (Normal tt, s)
           end.

(** Promise [p] is settled: fulfilled with [Some v], or rejected, in which
    case the suspended function is abandoned (nothing catches the error). *)
Definition settle (p : nat) (v : option (list Message)) : Js unit :=
  fun s => match lookup_task p (tasks s) with
           | Some k =>
               let s' := set_tasks (remove_task p (tasks s)) s in
               match v with
               | Some v => resume k v s'
               | None => (Normal tt, s')
               end
           | None => (Normal tt, s)
           end.

(** One turn of the event loop.  An exception that escapes a callback is
    reported and the loop goes on.

    The framework governs three of the events.  It runs the [onMount]
    callback once per instance: an instance on which it has run is one whose
    [channel] is assigned (line 15 is the only assignment), and a later
    [Mount] finds nothing to do.  It runs the function that the callback
    returned once, when the component is destroyed.  And the buttons of
    lines 58-59 are in the document, with their click handlers, only between
    these two moments: a click outside the mounted lifetime reaches no
    handler. *)
Definition step (e : Event) (s : State) : State :=
  match e with
  | Mount =>
      match channel s with
      | None => exec onMount s
      | Some _ => s
      end
  | Unmount =>
      if destroy_hook s then exec cleanup (set_destroy_hook false s) else s
  | DeliverMessage h m => exec (dispatch_message h m) s
  | PresenceEvent h m => exec (dispatch_presence h m) s
  | Resolve p v => exec (settle p (Some v)) s
  | Reject p => exec (settle p None) s
  | ClickSend => if destroy_hook s then exec sendMessage s else s
  | ClickUpdate => if destroy_hook s then exec (update "hello") s else s
  end.

Fixpoint run (evs : list Event) (s : State) : State :=
  match evs with
  | [] => s
  | e :: evs' => run evs' (step e s)
  end.

(** Mounting and destroying, as opposed to traffic. *)
Definition lifecycle (e : Event) : bool :=
  match e with
  | Mount | Unmount => true
  | _ => false
  end.

(** ** The mounted lifetime

    Between [Mount] and [Unmount] the component holds handle 0 and the
    channel object carries exactly the four registrations of lines 17-28. *)

Definition mounted_channel : ChannelObj :=
  {| subscriptions := [OnMessage];
     presence_subscriptions :=
       [("enter", UpdatePresence); ("leave", UpdatePresence);
        ("update", UpdatePresence)] |}.

(** Promise identifiers still waiting are older than the next one. *)
Definition fresh (np : nat) (ts : list (nat * Cont)) : Prop :=
  Forall (fun t => t.1 < np) ts.

Definition Mounted (s : State) : Prop :=
  channel s = Some 0 /\ channels s = [mounted_channel] /\
  destroy_hook s = true /\ fresh (next_promise s) (tasks s).

(** The messages an event delivers on channel [h]. *)
Definition arrival (h : nat) (e : Event) : list Message :=
  match e with
  | DeliverMessage h' m => if decide (h' = h) then [m] else []
  | _ => []
  end.

Fixpoint arrivals (h : nat) (evs : list Event) : list Message :=
  match evs with
  | [] => []
  | e :: evs' => arrival h e ++ arrivals h evs'
  end.

Definition no_lifecycle (evs : list Event) : bool :=
  forallb (fun e => negb (lifecycle e)) evs.

Ltac break_state s :=
  destruct s as [ms pd ch chs ts np lg dh]; cbn in *.

Ltac destruct_channel :=
  repeat match goal with c : ChannelObj |- _ => destruct c end; cbn.

Ltac use_mounted H :=
  destruct H as (? & ? & ? & ?); cbn in *; subst.

Arguments remove_task : simpl never.

Create HintDb tasks.

Ltac mounted_done :=
  unfold Mounted; cbn; rewrite ?app_nil_r; repeat split; cbn;
  auto with tasks.

(** ** Release *)

(** What lines 35-42 do, in order, on the channel with handle [h]. *)
Definition release_log (h : nat) : list (nat * Op) :=
  [(35, PresenceLeave h);
   (36, PresenceUnsubscribe h "enter");
   (37, PresenceUnsubscribe h "leave");
   (38, PresenceUnsubscribe h "update");
   (39, AssignPresenceData []);
   (41, Unsubscribe h (VChannel h));
   (42, Detach h)].

(** The seven statements of lines 35-42, one by one. *)
Definition cleanup_statements : list (Js unit) :=
  [ (h <- deref ;; emit 35 (PresenceLeave h));
    (h <- deref ;; presence_unsubscribe 36 h "enter");
    (h <- deref ;; presence_unsubscribe 37 h "leave");
    (h <- deref ;; presence_unsubscribe 38 h "update");
    (modify (set_presenceData []) ;; emit 39 (AssignPresenceData []));
    (h <- deref ;; channel_unsubscribe 41 h (VChannel h));
    (h <- deref ;; emit 42 (Detach h)) ].

(** The state after the first [k] statements of the clean-up function. *)
Definition cleanup_upto (k : nat) (s : State) : State :=
  exec (for_each (fun m => m) (take k cleanup_statements)) s.

(** A channel object without its presence listeners for the actions
    [acts]; its message listeners are the same. *)
Definition without_actions (acts : list string) (c : ChannelObj)
    : ChannelObj :=
  {| subscriptions := subscriptions c;
     presence_subscriptions :=
       filter (fun al => al.1 ∉ acts) (presence_subscriptions c) |}.

(** The channel object as the clean-up function leaves it. *)
Definition released_channel : ChannelObj :=
  {| subscriptions := [OnMessage]; presence_subscriptions := [] |}.

Definition Released (s : State) : Prop :=
  channel s = Some 0 /\ channels s = [released_channel] /\
  destroy_hook s = false.

(** The state in which the component is once it has been mounted, has seen
    the events [before], and has been destroyed. *)
Definition released (before : list Event) : State :=
  run (Mount :: before ++ [Unmount]) init.

Definition visible (s : State) : list Message * list Message :=
  (messages s, presenceData s).

(** Events that may still arrive after the clean-up: everything but a new
    mount and a message delivery. *)
Definition late_event (e : Event) : bool :=
  match e with
  | Mount | DeliverMessage _ _ => false
  | _ => true
  end.

(** ** Sample event sequences *)

(** Two messages arrive while a participant enters, the user clicks and the
    presence entry of line 30 completes. *)
Definition sample_traffic : list Event :=
  [DeliverMessage 0 (mkMessage "a" "test-message" "one");
   PresenceEvent 0 (mkMessage "b" "enter" "");
   ClickSend;
   DeliverMessage 0 (mkMessage "b" "test-message" "two");
   Resolve 0 []].

(** The presence entry and the first snapshot fetch both complete, then one
    message arrives. *)
Definition settled_traffic : list Event :=
  [Resolve 0 []; Resolve 1 [mkMessage "A" "enter" ""];
   DeliverMessage 0 (mkMessage "A" "test-message" "hi")].

(** A participant enters and the fetch this triggers completes, the
    component is destroyed and the user still clicks: all while the entry
    of line 30 is in flight. *)
Definition sample_wait : list Event :=
  [PresenceEvent 0 (mkMessage "B" "enter" ""); Resolve 1 []; Unmount;
   ClickUpdate].

(** The user clicks both buttons while messages and presence events
    arrive. *)
Definition click_traffic : list Event :=
  [ClickSend; DeliverMessage 0 (mkMessage "a" "test-message" "one");
   ClickUpdate; PresenceEvent 0 (mkMessage "someid" "update" "hello");
   Resolve 1 []; ClickSend].

(** What can still happen to a destroyed component. *)
Definition late_traffic : list Event :=
  [PresenceEvent 0 (mkMessage "B" "enter" ""); Resolve 2 [];
   PresenceEvent 0 (mkMessage "A" "leave" ""); ClickSend; ClickUpdate;
   Unmount; Reject 0].

(** The presence actions the script subscribes to (lines 26-28). *)
Definition presence_action (a : string) : bool :=
  existsb (String.eqb a) ["enter"; "leave"; "update"].

(** The component has a channel handle. *)
Definition has_channel (s : State) : Prop := exists h, channel s = Some h.

(** Events other than a new mount and the fulfilment of promise [p]. *)
Definition keeps_pending (p : nat) (e : Event) : bool :=
  match e with
  | Mount => false
  | Resolve q _ => negb (Nat.eqb q p)
  | _ => true
  end.

(** Nothing of line 31 has happened: no log entry comes from it, no fetch
    of it is in flight, and the only entry that may be pending is the one
    with promise 0. *)
Definition before_snapshot (s : State) : Prop :=
  Forall (fun t => t.2 <> K_iife_assign /\
                   (t.2 = K_iife_after_enter -> t.1 = 0)) (tasks s) /\
  Forall (fun e => e.1 <> 31) (log s).

(** Events that leave the presence entry of line 30 in flight: no new
    mount, and promise 0 neither fulfilled nor rejected. *)
Definition keeps_waiting (e : Event) : bool :=
  match e with
  | Mount => false
  | Resolve q _ | Reject q => negb (Nat.eqb q 0)
  | _ => true
  end.

(** The async function of lines 25-32 is suspended at line 30. *)
Definition entry_waiting (s : State) : Prop :=
  lookup_task 0 (tasks s) = Some K_iife_after_enter /\
  channel s = Some 0 /\
  fresh (next_promise s) (tasks s).

(** ** Counting and selecting events and calls *)

Definition is_mount (e : Event) : bool :=
  match e with Mount => true | _ => false end.

Definition no_mount (evs : list Event) : bool :=
  forallb (fun e => negb (is_mount e)) evs.

Definition is_click_send (e : Event) : bool :=
  match e with ClickSend => true | _ => false end.

Definition is_click_update (e : Event) : bool :=
  match e with ClickUpdate => true | _ => false end.

Definition is_presence_event (e : Event) : bool :=
  match e with PresenceEvent _ _ => true | _ => false end.

(** The event sequence with its presence events taken out. *)
Definition without_presence (evs : list Event) : list Event :=
  List.filter (fun e => negb (is_presence_event e)) evs.

Definition is_publish (en : nat * Op) : bool :=
  match en.2 with Publish _ _ _ => true | _ => false end.

Definition is_presence_update (en : nat * Op) : bool :=
  match en.2 with PresenceUpdate _ _ => true | _ => false end.

Definition count {A} (f : A -> bool) (l : list A) : nat :=
  length (List.filter f l).

(** What lines 10-30 do, in order, when the new channel gets handle [h]. *)
Definition mount_log (h : nat) : list (nat * Op) :=
  [(10, NewRealtime "your-api-key-here" "someid");
   (15, ChannelsGet h "your-channel-name");
   (15, AssignChannel h);
   (17, Subscribe h OnMessage);
   (26, PresenceSubscribe h "enter" UpdatePresence);
   (27, PresenceSubscribe h "leave" UpdatePresence);
   (28, PresenceSubscribe h "update" UpdatePresence);
   (30, PresenceEnter h "")].

(** The async function of lines 25-32 is gone: only fetches started by
    [updatePresence] may be in flight, and nothing of line 31 has
    happened. *)
Definition abandoned (s : State) : Prop :=
  Forall (fun t => t.2 = K_updatePresence) (tasks s) /\
  Forall (fun e => e.1 <> 31) (log s).

(** What one event leaves alone: [messages] only grows, [channel] changes
    only on a mount, the registrations only on a mount or a destroy. *)
Definition frame (e : Event) (s s' : State) : Prop :=
  messages s `prefix_of` messages s' /\
  (is_mount e = false -> channel s' = channel s) /\
  (lifecycle e = false -> channels s' = channels s).

(** Two presence events in a row, the second fetch completing first. *)
Definition race (m1 m2 : Message) (np : nat) (v1 v2 : list Message)
    : list Event :=
  [PresenceEvent 0 m1; PresenceEvent 0 m2; Resolve (S np) v2; Resolve np v1].

Definition is_user_call (en : nat * Op) : bool :=
  is_publish en || is_presence_update en.

(** The call a click makes on the channel with handle 0. *)
Definition user_call (e : Event) : list (nat * Op) :=
  match e with
  | ClickSend => [(47, Publish 0 "test-message" "message text")]
  | ClickUpdate => [(51, PresenceUpdate 0 "hello")]
  | _ => []
  end.

Definition user_calls (evs : list Event) : list (nat * Op) :=
  flat_map user_call evs.

(** The events on which [presenceData] is assigned: a promise is
    fulfilled (lines 22 and 31) or the component is destroyed (line 39). *)
Definition may_assign_presence (e : Event) : bool :=
  match e with
  | Resolve _ _ | Unmount => true
  | _ => false
  end.

Definition no_assignment (evs : list Event) : bool :=
  forallb (fun e => negb (may_assign_presence e)) evs.

(** * Properties *)

(** The state right after mounting a fresh component. *)
Example mount_state :
  step Mount init =
  {| messages := []; presenceData := []; channel := Some 0;
     channels := [ {| subscriptions := [OnMessage];
                      presence_subscriptions :=
                        [("enter", UpdatePresence); ("leave", UpdatePresence);
                         ("update", UpdatePresence)] |} ];
     tasks := [(0, K_iife_after_enter)]; next_promise := 1;
     log := [(10, NewRealtime "your-api-key-here" "someid");
             (15, ChannelsGet 0 "your-channel-name");
             (15, AssignChannel 0);
             (17, Subscribe 0 OnMessage);
             (26, PresenceSubscribe 0 "enter" UpdatePresence);
             (27, PresenceSubscribe 0 "leave" UpdatePresence);
             (28, PresenceSubscribe 0 "update" UpdatePresence);
             (30, PresenceEnter 0 "")];
     destroy_hook := true |}.
Proof. reflexivity. Qed.

(** ** Task lists and runs *)

Lemma run_app (xs ys : list Event) (s : State) :
  run (xs ++ ys) s = run ys (run xs s).
Proof. revert s. induction xs as [|x xs IH]; intros s; cbn; [done|apply IH]. Qed.

Lemma fresh_await (ts : list (nat * Cont)) (np : nat) (k : Cont) :
  fresh np ts -> fresh (S np) (ts ++ [(np, k)]).
Proof.
  intros H. apply Forall_app. split.
  - eapply Forall_impl; [exact H|]. cbn. lia.
  - apply Forall_cons; split; [cbn; lia | apply Forall_nil_2].
Qed.

Lemma Forall_remove_task (P : nat * Cont -> Prop) (p : nat)
    (ts : list (nat * Cont)) :
  Forall P ts -> Forall P (remove_task p ts).
Proof.
  unfold remove_task. rewrite !Forall_forall.
  intros H t Ht. apply H. by apply list_elem_of_filter in Ht as [_ Ht].
Qed.

Lemma fresh_remove (p np : nat) (ts : list (nat * Cont)) :
  fresh np ts -> fresh np (remove_task p ts).
Proof. apply Forall_remove_task. Qed.

#[local] Hint Resolve fresh_await fresh_remove : tasks.

Lemma lookup_task_app (p : nat) (ts us : list (nat * Cont)) :
  lookup_task p (ts ++ us) =
  match lookup_task p ts with Some k => Some k | None => lookup_task p us end.
Proof.
  induction ts as [|[q k] ts IH]; cbn; [done|]. by case_decide.
Qed.

Lemma lookup_task_fresh (np : nat) (ts : list (nat * Cont)) :
  fresh np ts -> lookup_task np ts = None.
Proof.
  induction 1 as [|[q k] ts Hq _ IH]; cbn in *; [done|].
  case_decide; [lia|done].
Qed.

(** ** The mounted lifetime *)

Lemma mounted_after_mount : Mounted (step Mount init).
Proof.
  repeat split. unfold fresh. cbn.
  apply Forall_cons; split; [cbn; lia | apply Forall_nil_2].
Qed.

Lemma mounted_step (e : Event) (s : State) :
  Mounted s -> lifecycle e = false ->
  Mounted (step e s) /\ messages (step e s) = messages s ++ arrival 0 e.
Proof.
  intros HM He. break_state s. use_mounted HM.
  destruct e as [ | | h m | h m | p v | p | | ]; try discriminate; cbn.
  - destruct h as [|h]; cbn; [mounted_done|].
    destruct h; mounted_done.
  - destruct h as [|h]; cbn; [|destruct h; mounted_done].
    unfold dispatch_presence, exec; cbn.
    repeat case_decide; try congruence; mounted_done.
  - unfold settle, exec; cbn.
    destruct (lookup_task p ts) as [[]|]; mounted_done.
  - unfold settle, exec; cbn.
    destruct (lookup_task p ts); mounted_done.
  - mounted_done.
  - mounted_done.
Qed.

Lemma mounted_run (evs : list Event) (s : State) :
  Mounted s -> no_lifecycle evs = true ->
  Mounted (run evs s) /\ messages (run evs s) = messages s ++ arrivals 0 evs.
Proof.
  revert s. induction evs as [|e evs IH]; intros s HM Hevs; cbn.
  - by rewrite app_nil_r.
  - cbn in Hevs. apply andb_prop in Hevs as [He Hevs].
    apply negb_true_iff in He.
    destruct (mounted_step e s HM He) as [HM' Hm'].
    destruct (IH _ HM' Hevs) as [HM'' Hm''].
    split; [done|]. by rewrite Hm'', Hm', <- app_assoc.
Qed.

Lemma arrivals_deliveries (h : nat) (ms : list Message) :
  arrivals h (map (DeliverMessage h) ms) = ms.
Proof.
  induction ms as [|m ms IH]; cbn; [done|].
  case_decide; [|done]. cbn. by rewrite IH.
Qed.

(** ** The clean-up function *)

Lemma cleanup_log (s : State) (h : nat) :
  channel s = Some h ->
  fst (cleanup s) = Normal tt /\ log (exec cleanup s) = log s ++ release_log h.
Proof.
  intros Hc. break_state s. subst ch. unfold exec. cbn.
  split; [done|]. by rewrite <- !app_assoc.
Qed.

Lemma cleanup_frame (s : State) :
  messages (exec cleanup s) = messages s /\
  presenceData (exec cleanup s) =
    match channel s with Some _ => [] | None => presenceData s end.
Proof. break_state s. by destruct ch. Qed.

Lemma cleanup_tasks (s : State) : tasks (exec cleanup s) = tasks s.
Proof. break_state s. by destruct ch. Qed.

Lemma cleanup_null (s : State) :
  channel s = None -> cleanup s = (Throw TypeError, s).
Proof. intros Hc. break_state s. by subst. Qed.

Lemma unmount_mounted (s : State) :
  Mounted s ->
  Released (step Unmount s) /\
  tasks (step Unmount s) = tasks s /\
  next_promise (step Unmount s) = next_promise s /\
  visible (step Unmount s) = (messages s, []) /\
  log (step Unmount s) = log s ++ release_log 0.
Proof.
  intros HM. break_state s. use_mounted HM. unfold Released, visible. cbn.
  repeat split. by rewrite <- !app_assoc.
Qed.

Lemma released_step (e : Event) (s : State) :
  Released s -> tasks s = [] -> late_event e = true ->
  Released (step e s) /\ tasks (step e s) = [] /\
  visible (step e s) = visible s.
Proof.
  intros (Hc & Hcs & Hd) Ht He. break_state s. subst.
  destruct e as [ | | h m | h m | p v | p | | ]; try discriminate;
    unfold Released, visible; cbn; try done.
  destruct h as [|[|h]]; done.
Qed.

Lemma released_run (evs : list Event) (s : State) :
  Released s -> tasks s = [] -> forallb late_event evs = true ->
  visible (run evs s) = visible s.
Proof.
  revert s. induction evs as [|e evs IH]; intros s HR Ht Hevs; cbn; [done|].
  cbn in Hevs. apply andb_prop in Hevs as [He Hevs].
  destruct (released_step e s HR Ht He) as (HR' & Ht' & Hv).
  by rewrite (IH _ HR' Ht' Hevs).
Qed.

Lemma released_spec (before : list Event) :
  no_lifecycle before = true ->
  Released (released before) /\
  tasks (released before) = tasks (run (Mount :: before) init) /\
  visible (released before) = (arrivals 0 before, []).
Proof.
  intros Hb. unfold released.
  change (Mount :: before ++ [Unmount]) with ((Mount :: before) ++ [Unmount]).
  rewrite run_app. cbn [run].
  destruct (mounted_run before _ mounted_after_mount Hb) as [HM Hm].
  destruct (unmount_mounted _ HM) as (HR & Ht & _ & Hv & _).
  repeat split; try apply HR; [done|]. by rewrite Hv, Hm.
Qed.

(** ** Registration and deregistration *)

(** C1: every listener registered while mounting should have a matching
    deregistration in the clean-up function.  Mounting and then destroying a
    fresh component removes the three presence registrations, but line 41
    hands the channel handle, not the listener of line 17, to
    [channel.unsubscribe]: the message listener is still registered on the
    channel after the clean-up has run. *)
Theorem C1_message_listener_survives_release :
  channels (step Mount init) =
    [ {| subscriptions := [OnMessage];
         presence_subscriptions :=
           [("enter", UpdatePresence); ("leave", UpdatePresence);
            ("update", UpdatePresence)] |} ] /\
  channels (run [Mount; Unmount] init) =
    [ {| subscriptions := [OnMessage]; presence_subscriptions := [] |} ] /\
  log (run [Mount; Unmount] init) =
    log (step Mount init) ++
    [(35, PresenceLeave 0);
     (36, PresenceUnsubscribe 0 "enter");
     (37, PresenceUnsubscribe 0 "leave");
     (38, PresenceUnsubscribe 0 "update");
     (39, AssignPresenceData []);
     (41, Unsubscribe 0 (VChannel 0));
     (42, Detach 0)].
Proof. repeat split. Qed.

(** Passing the listener itself would have removed it. *)
Example unsubscribe_listener_removes :
  channels (exec (channel_unsubscribe 41 0 (VListener OnMessage))
                 (step Mount init)) =
  [ {| subscriptions := [];
       presence_subscriptions :=
         presence_subscriptions mounted_channel |} ].
Proof. reflexivity. Qed.

(** X10: during the mounted lifetime, whatever traffic arrives, the
    channel has exactly one message listener and, for every presence
    action, at most one presence listener. *)
Lemma one_registration_per_kind (evs : list Event) (a : string) :
  no_lifecycle evs = true ->
  exists c, channels (run (Mount :: evs) init) = [c] /\
    length (subscriptions c) = 1 /\
    length (filter (fun al => al.1 = a) (presence_subscriptions c)) <= 1.
Proof.
  intros Hevs. cbn [run].
  destruct (mounted_run evs _ mounted_after_mount Hevs) as [(_ & Hc & _) _].
  exists mounted_channel. split; [done|]. split; [done|].
  cbn. repeat case_decide; cbn; try lia; congruence.
Qed.

(** ** Messages *)

(** C2: the messages delivered on the acquired channel between mount and
    unmount are exactly the visible sequence, in arrival order, whatever
    other events (presence events, promise settlements, clicks) are
    interleaved with them. *)
Theorem C2_messages_in_arrival_order (evs : list Event) :
  no_lifecycle evs = true ->
  channel (run (Mount :: evs) init) = Some 0 /\
  messages (run (Mount :: evs) init) = arrivals 0 evs.
Proof.
  intros Hevs. cbn [run].
  destruct (mounted_run evs _ mounted_after_mount Hevs) as [(Hc & _) Hm].
  split; [done|]. by rewrite Hm.
Qed.

Lemma C2_witness :
  no_lifecycle sample_traffic = true /\
  channel (run (Mount :: sample_traffic) init) = Some 0 /\
  messages (run (Mount :: sample_traffic) init) =
    [mkMessage "a" "test-message" "one"; mkMessage "b" "test-message" "two"].
Proof.
  split; [reflexivity|].
  exact (C2_messages_in_arrival_order sample_traffic eq_refl).
Defined.

(** N deliveries in a row give exactly those N messages. *)
Lemma messages_of_deliveries (ms : list Message) :
  messages (run (Mount :: map (DeliverMessage 0) ms) init) = ms.
Proof.
  cbn [run].
  assert (no_lifecycle (map (DeliverMessage 0) ms) = true) as Hn.
  { induction ms; cbn; auto. }
  destruct (mounted_run _ _ mounted_after_mount Hn) as [_ Hm].
  by rewrite Hm, arrivals_deliveries.
Qed.

(** ** After release *)

(** C3, as stated, fails: a presence event starts a snapshot fetch, the
    component is destroyed while the fetch is in flight, and the fetch then
    completes and assigns [presenceData] of the destroyed instance. *)
Lemma C3_late_fetch_mutates :
  no_lifecycle [PresenceEvent 0 (mkMessage "A" "enter" "")] = true /\
  visible (released [PresenceEvent 0 (mkMessage "A" "enter" "")]) = ([], []) /\
  visible (run [Resolve 1 [mkMessage "A" "enter" ""]]
               (released [PresenceEvent 0 (mkMessage "A" "enter" "")])) =
    ([], [mkMessage "A" "enter" ""]) /\
  visible (run [Resolve 1 [mkMessage "A" "enter" ""]]
               (released [PresenceEvent 0 (mkMessage "A" "enter" "")])) <>
  visible (released [PresenceEvent 0 (mkMessage "A" "enter" "")]).
Proof.
  split; [vm_compute; reflexivity|].
  split; [vm_compute; reflexivity|].
  split; [vm_compute; reflexivity|vm_compute; discriminate].
Qed.

(** C3 (amended): when no presence entry or snapshot fetch is in flight at
    the time of the clean-up, nothing that happens afterwards (presence
    events, promise settlements, clicks, a second destroy) changes
    [messages] or [presenceData]: the presence listeners are gone. *)
Theorem C3_quiet_after_release (before late : list Event) :
  no_lifecycle before = true ->
  tasks (released before) = [] ->
  forallb late_event late = true ->
  visible (run late (released before)) = visible (released before).
Proof.
  intros Hb Ht Hl.
  destruct (released_spec before Hb) as (HR & _ & _).
  by apply released_run.
Qed.

Lemma C3_witness :
  no_lifecycle settled_traffic = true /\
  tasks (released settled_traffic) = [] /\
  forallb late_event late_traffic = true /\
  visible (run late_traffic (released settled_traffic)) =
    ([mkMessage "A" "test-message" "hi"], []).
Proof.
  split; [reflexivity|]. split; [reflexivity|]. split; [reflexivity|].
  exact (C3_quiet_after_release settled_traffic late_traffic
           eq_refl eq_refl eq_refl).
Defined.

Lemma filter_all {A} (P : A -> Prop) `{!forall x, Decision (P x)}
    (l : list A) :
  (forall x, P x) -> filter P l = l.
Proof.
  intros HP. induction l as [|x l IH]; [done|].
  by rewrite filter_cons_True, IH.
Qed.

Lemma cleanup_is_statements (s : State) (h : nat) :
  channel s = Some h -> cleanup s = (Normal tt, cleanup_upto 7 s).
Proof.
  intros Hc. destruct s as [ms pd ch chs ts np lg dh]. cbn in Hc. subst ch.
  vm_compute. reflexivity.
Qed.

Lemma cleanup_upto_log (s : State) (h k : nat) :
  channel s = Some h -> k <= 7 ->
  log (cleanup_upto k s) = log s ++ take k (release_log h).
Proof.
  intros Hc Hk. break_state s. subst ch. unfold cleanup_upto, exec.
  do 8 (destruct k as [|k]; [cbn; by rewrite <- ?app_assoc, ?app_nil_r|]).
  lia.
Qed.

Lemma cleanup_upto_presenceData (s : State) (h k : nat) :
  channel s = Some h -> k <= 7 ->
  presenceData (cleanup_upto k s) =
    if decide (k < 5) then presenceData s else [].
Proof.
  intros Hc Hk. break_state s. subst ch. unfold cleanup_upto, exec.
  do 8 (destruct k as [|k]; [cbn; case_decide; (done || lia)|]).
  lia.
Qed.

Lemma cleanup_upto_channels (s : State) (h k : nat) :
  channel s = Some h -> k <= 7 ->
  channels (cleanup_upto k s) =
    alter (without_actions (take (k - 1) ["enter"; "leave"; "update"])) h
          (channels s).
Proof.
  intros Hc Hk. break_state s. subst ch. unfold cleanup_upto, exec.
  assert (forall f : ChannelObj -> ChannelObj,
            (forall c, f c = c) -> chs = alter f h chs) as Hid.
  { intros f Hf. symmetry. by apply list_alter_id. }
  do 8 (destruct k as [|k];
    [cbn; rewrite ?list_alter_alter_eq;
     first [apply Hid|apply list_alter_ext; [|done]; intros ? _];
     intros; unfold without_actions, compose; cbn; destruct_channel;
     f_equal; rewrite ?list_filter_filter;
     first [by rewrite !filter_all by (intros; set_solver)
           |apply list_filter_iff; intros [??]; cbn; set_solver]|]).
  lia.
Qed.

(** C4: the clean-up function runs the seven statements of lines 35-42 in
    the order of the claim, and each takes effect before the next: after
    the first [k] of them the log holds the first [k] calls, the presence
    listeners of the actions unsubscribed so far are gone, and
    [presenceData] is emptied by the fifth.  The message listeners,
    however, are the same after all seven: the sixth statement calls
    [channel.unsubscribe] with the channel handle and deregisters
    nothing. *)
Theorem C4_release_steps (s : State) (h k : nat) :
  channel s = Some h -> k <= 7 ->
  cleanup s = (Normal tt, cleanup_upto 7 s) /\
  log (cleanup_upto k s) =
    log s ++ take k [(35, PresenceLeave h);
                     (36, PresenceUnsubscribe h "enter");
                     (37, PresenceUnsubscribe h "leave");
                     (38, PresenceUnsubscribe h "update");
                     (39, AssignPresenceData []);
                     (41, Unsubscribe h (VChannel h));
                     (42, Detach h)] /\
  presenceData (cleanup_upto k s) =
    (if decide (k < 5) then presenceData s else []) /\
  channels (cleanup_upto k s) =
    alter (without_actions (take (k - 1) ["enter"; "leave"; "update"])) h
          (channels s).
Proof.
  intros Hc Hk. split; [exact (cleanup_is_statements s h Hc)|].
  split; [exact (cleanup_upto_log s h k Hc Hk)|].
  split; [exact (cleanup_upto_presenceData s h k Hc Hk)|].
  exact (cleanup_upto_channels s h k Hc Hk).
Qed.

Lemma C4_witness :
  channel (run (Mount :: settled_traffic) init) = Some 0 /\ 4 <= 7 /\
  presenceData (cleanup_upto 4 (run (Mount :: settled_traffic) init)) =
    [mkMessage "A" "enter" ""] /\
  channels (cleanup_upto 4 (run (Mount :: settled_traffic) init)) =
    [ {| subscriptions := [OnMessage]; presence_subscriptions := [] |} ].
Proof.
  split; [reflexivity|]. split; [lia|].
  pose proof (C4_release_steps (run (Mount :: settled_traffic) init) 0 4
                eq_refl (le_S _ _ (le_S _ _ (le_S _ _ (le_n 4))))) as H.
  split.
  - exact (proj1 (proj2 (proj2 H))).
  - exact (proj2 (proj2 (proj2 H))).
Defined.

(** C9: the clean-up function leaves [messages] as it found it, from every
    state; it only empties [presenceData].  A fresh instance starts with an
    empty [messages]. *)
Theorem C9_release_keeps_messages (s : State) :
  messages (exec cleanup s) = messages s /\
  messages (step Unmount s) = messages s /\
  presenceData (exec cleanup s) =
    match channel s with Some _ => [] | None => presenceData s end /\
  messages init = [].
Proof.
  destruct (cleanup_frame s) as [Hm Hp].
  repeat split; try done.
  cbn. destruct (destroy_hook s); [|done].
  by destruct (cleanup_frame (set_destroy_hook false s)) as [-> _].
Qed.

(** ** Presence snapshots *)

Lemma presence_action_cases (a : string) :
  presence_action a = true -> a = "enter" \/ a = "leave" \/ a = "update".
Proof.
  unfold presence_action. cbn. rewrite !orb_true_iff, !String.eqb_eq.
  intros [?|[?|[?|?]]]; auto. discriminate.
Qed.

Lemma presence_event_mounted (s : State) (m : Message) (v : list Message) :
  Mounted s -> presence_action (name m) = true ->
  log (step (PresenceEvent 0 m) s) = log s ++ [(22, PresenceGet 0)] /\
  tasks (step (PresenceEvent 0 m) s) =
    tasks s ++ [(next_promise s, K_updatePresence)] /\
  presenceData (run [PresenceEvent 0 m; Resolve (next_promise s) v] s) = v.
Proof.
  intros HM Ha. break_state s. use_mounted HM.
  destruct m as [c a d]. cbn in *.
  unfold dispatch_presence, settle, exec.
  destruct (presence_action_cases a Ha) as [ -> | [ -> | -> ] ]; cbn;
    repeat case_decide; try congruence; cbn;
    (split; [done|split; [done|]]);
    rewrite lookup_task_app, lookup_task_fresh by done; cbn;
    by case_decide.
Qed.

(** C5: a presence event of any of the three kinds makes [updatePresence]
    fetch the member list, and when the fetch completes [presenceData] is
    the fetched list, whatever it held before. *)
Theorem C5_presence_is_full_snapshot
    (before : list Event) (m : Message) (v : list Message) :
  no_lifecycle before = true ->
  presence_action (name m) = true ->
  log (step (PresenceEvent 0 m) (run (Mount :: before) init)) =
    log (run (Mount :: before) init) ++ [(22, PresenceGet 0)] /\
  tasks (step (PresenceEvent 0 m) (run (Mount :: before) init)) =
    tasks (run (Mount :: before) init) ++
    [(next_promise (run (Mount :: before) init), K_updatePresence)] /\
  presenceData
    (run [PresenceEvent 0 m;
          Resolve (next_promise (run (Mount :: before) init)) v]
         (run (Mount :: before) init)) = v.
Proof.
  intros Hb Ha. apply presence_event_mounted; [|done].
  cbn [run]. by destruct (mounted_run before _ mounted_after_mount Hb).
Qed.

Lemma C5_witness :
  no_lifecycle settled_traffic = true /\
  presence_action (name (mkMessage "A" "leave" "")) = true /\
  presenceData
    (run [PresenceEvent 0 (mkMessage "A" "leave" "");
          Resolve 2 [mkMessage "B" "enter" ""]]
         (run (Mount :: settled_traffic) init)) = [mkMessage "B" "enter" ""].
Proof.
  split; [reflexivity|]. split; [reflexivity|].
  exact (proj2 (proj2 (C5_presence_is_full_snapshot settled_traffic
           (mkMessage "A" "leave" "") [mkMessage "B" "enter" ""]
           eq_refl eq_refl))).
Defined.

(** A enters, B enters, A leaves: the visible set is {A}, {A,B}, {B}. *)
Example presence_scenario :
  let a := mkMessage "A" "enter" "" in
  let b := mkMessage "B" "enter" "" in
  let s1 := run [Mount; Resolve 0 []; PresenceEvent 0 a; Resolve 1 [a]] init in
  let s2 := run [PresenceEvent 0 b; Resolve 2 [a; b]] s1 in
  let s3 := run [PresenceEvent 0 (mkMessage "A" "leave" ""); Resolve 3 [b]] s2 in
  presenceData s1 = [a] /\ presenceData s2 = [a; b] /\ presenceData s3 = [b].
Proof. repeat split. Qed.

(** ** Publish and presence update *)

Lemma sendMessage_spec (s : State) :
  sendMessage s =
  match channel s with
  | None => (Throw TypeError, s)
  | Some h =>
      (Normal tt,
       set_log (log s ++ [(47, Publish h "test-message" "message text")]) s)
  end.
Proof. break_state s. by destruct ch. Qed.

Lemma update_spec (s : State) (text : string) :
  update text s =
  match channel s with
  | None => (Throw TypeError, s)
  | Some h => (Normal tt, set_log (log s ++ [(51, PresenceUpdate h text)]) s)
  end.
Proof. break_state s. by destruct ch. Qed.

(** C6, as stated, fails: after the clean-up has run and the channel has
    been detached, [sendMessage] still issues the publish call and returns
    normally; no error reaches its caller. *)
Lemma C6_publish_after_release_returns :
  last (log (released [])) = Some (42, Detach 0) /\
  sendMessage (released []) =
    (Normal tt,
     set_log (log (released []) ++
              [(47, Publish 0 "test-message" "message text")])
             (released [])) /\
  fst (sendMessage (released [])) <> Throw PublishError.
Proof.
  split; [vm_compute; reflexivity|].
  split; [vm_compute; reflexivity|vm_compute; discriminate].
Qed.

(** C6 (amended): [sendMessage] throws a TypeError while [channel] is still
    [null]; otherwise it makes one publish call on the channel, whatever the
    channel's condition, drops the promise and returns normally. *)
Theorem C6_sendMessage_unguarded (s : State) :
  sendMessage s =
  match channel s with
  | None => (Throw TypeError, s)
  | Some h =>
      (Normal tt,
       set_log (log s ++ [(47, Publish h "test-message" "message text")]) s)
  end.
Proof. apply sendMessage_spec. Qed.

(** C7, as stated, fails: when entering presence failed (the promise of
    line 30 was rejected), [update] still issues the call and returns
    normally. *)
Lemma C7_update_without_entry_returns :
  tasks (run [Mount; Reject 0] init) = [] /\
  update "hello" (run [Mount; Reject 0] init) =
    (Normal tt,
     set_log (log (run [Mount; Reject 0] init) ++
              [(51, PresenceUpdate 0 "hello")])
             (run [Mount; Reject 0] init)) /\
  fst (update "hello" (run [Mount; Reject 0] init)) <>
    Throw PresenceUpdateError.
Proof.
  split; [vm_compute; reflexivity|].
  split; [vm_compute; reflexivity|vm_compute; discriminate].
Qed.

(** C7 (amended): [update] throws a TypeError while [channel] is still
    [null]; otherwise it makes exactly one presence update call, drops the
    promise and returns normally, so nothing is retried and nothing is
    reported to the caller. *)
Theorem C7_update_unguarded (s : State) (text : string) :
  update text s =
  match channel s with
  | None => (Throw TypeError, s)
  | Some h => (Normal tt, set_log (log s ++ [(51, PresenceUpdate h text)]) s)
  end.
Proof. apply update_spec. Qed.

(** ** Invariants of arbitrary runs *)

Lemma for_each_inv {A} (P : State -> Prop) (f : A -> Js unit)
    (l : list A) (s : State) :
  (forall x s', P s' -> P (exec (f x) s')) ->
  P s -> P (exec (for_each f l) s).
Proof.
  intros Hf. revert s. induction l as [|x l IH]; intros s Hs; [done|].
  specialize (Hf x s Hs). specialize (IH (exec (f x) s)).
  unfold exec in *. cbn. unfold bind.
  destruct (f x s) as [[u|e] s']; cbn in *; auto.
Qed.

Lemma lookup_task_elem (p : nat) (k : Cont) (ts : list (nat * Cont)) :
  lookup_task p ts = Some k -> (p, k) ∈ ts.
Proof.
  induction ts as [|[q k'] ts IH]; cbn; [done|].
  case_decide; intros Hk.
  - injection Hk as ->. subst. apply list_elem_of_here.
  - apply list_elem_of_further. auto.
Qed.

Lemma has_channel_listener (l : Listener) (m : Message) (s : State) :
  has_channel s -> has_channel (exec (call_listener l m) s).
Proof.
  intros [h Hh]. break_state s. subst. destruct l; by exists h.
Qed.

Lemma onMount_channel (s : State) :
  channel (exec onMount s) = Some (length (channels s)).
Proof. break_state s. reflexivity. Qed.

Lemma has_channel_mount (s : State) : has_channel (step Mount s).
Proof.
  unfold has_channel, step. destruct (channel s) as [h|] eqn:Hc.
  - by exists h.
  - eexists. apply onMount_channel.
Qed.

Lemma has_channel_step (e : Event) (s : State) :
  has_channel s -> has_channel (step e s).
Proof.
  intros Hs. destruct e as [ | | h m | h m | p v | p | | ].
  - apply has_channel_mount.
  - destruct Hs as [h Hh]. break_state s. subst. destruct dh; by exists h.
  - cbn. unfold dispatch_message, exec.
    destruct (channels s !! h) as [c|]; [|done].
    apply (for_each_inv has_channel); [|done].
    intros l s'. apply has_channel_listener.
  - cbn. unfold dispatch_presence, exec.
    destruct (channels s !! h) as [c|]; [|done].
    apply (for_each_inv has_channel); [|done].
    intros al s'. apply has_channel_listener.
  - destruct Hs as [h Hh]. break_state s. subst. unfold settle, exec. cbn.
    destruct (lookup_task p ts) as [[]|]; by exists h.
  - destruct Hs as [h Hh]. break_state s. subst. unfold settle, exec. cbn.
    destruct (lookup_task p ts); by exists h.
  - destruct Hs as [h Hh]. break_state s. subst. destruct dh; by exists h.
  - destruct Hs as [h Hh]. break_state s. subst. destruct dh; by exists h.
Qed.

Lemma has_channel_run (evs : list Event) (s : State) :
  has_channel s -> has_channel (run evs s).
Proof.
  revert s. induction evs as [|e evs IH]; intros s Hs; cbn; [done|].
  apply IH. by apply has_channel_step.
Qed.

(** C10: [sendMessage] and [update] read [channel] without a guard.  While
    the variable is [null] both throw a TypeError and do nothing else; once
    [onMount] has run, whatever happens afterwards, the variable holds a
    handle and both calls return normally. *)
Theorem C10_channel_dereference
    (s : State) (evs : list Event) (text : string) :
  channel s = None ->
  (sendMessage s = (Throw TypeError, s) /\
   update text s = (Throw TypeError, s)) /\
  (exists h, channel (run (Mount :: evs) s) = Some h) /\
  fst (sendMessage (run (Mount :: evs) s)) = Normal tt /\
  fst (update text (run (Mount :: evs) s)) = Normal tt.
Proof.
  intros Hnull.
  assert (has_channel (run (Mount :: evs) s)) as [h Hh].
  { cbn [run]. apply has_channel_run, has_channel_mount. }
  rewrite !sendMessage_spec, !update_spec.
  rewrite Hnull, Hh. repeat split. by exists h.
Qed.

Lemma C10_witness :
  channel init = None /\
  (sendMessage init = (Throw TypeError, init) /\
   update "hello" init = (Throw TypeError, init)) /\
  (exists h, channel (run (Mount :: sample_traffic ++ [Unmount]) init) =
             Some h) /\
  fst (sendMessage (run (Mount :: sample_traffic ++ [Unmount]) init)) =
    Normal tt /\
  fst (update "hello" (run (Mount :: sample_traffic ++ [Unmount]) init)) =
    Normal tt.
Proof.
  split; [reflexivity|].
  exact (C10_channel_dereference init (sample_traffic ++ [Unmount]) "hello"
           eq_refl).
Defined.

(** ** The presence entry of line 30 *)

Lemma before_snapshot_emit (s : State) (line : nat) (op : Op) :
  before_snapshot s -> line <> 31 ->
  before_snapshot (set_log (log s ++ [(line, op)]) s).
Proof.
  intros [Ht Hl] Hne. split; [done|]. cbn.
  apply Forall_app. split; [done|]. by apply Forall_singleton.
Qed.

Lemma before_snapshot_await (s : State) (k : Cont) :
  before_snapshot s -> k = K_updatePresence ->
  before_snapshot (set_next_promise (S (next_promise s))
                     (set_tasks (tasks s ++ [(next_promise s, k)]) s)).
Proof.
  intros [Ht Hl] ->. split; [|done]. cbn.
  apply Forall_app. split; [done|]. by apply Forall_singleton.
Qed.

Lemma before_snapshot_remove (s : State) (p : nat) :
  before_snapshot s ->
  before_snapshot (set_tasks (remove_task p (tasks s)) s).
Proof.
  intros [Ht Hl]. split; [|done]. cbn. by apply Forall_remove_task.
Qed.

Lemma before_snapshot_presenceData (s : State) (v : list Message) :
  before_snapshot s -> before_snapshot (set_presenceData v s).
Proof. by intros [Ht Hl]. Qed.

Lemma before_snapshot_listener (l : Listener) (m : Message) (s : State) :
  before_snapshot s -> before_snapshot (exec (call_listener l m) s).
Proof.
  intros [Ht Hl]. break_state s. destruct l; unfold exec; cbn.
  - split; [done|]. cbn.
    apply Forall_app. split; [done|]. by apply Forall_singleton.
  - destruct ch as [h|]; cbn; [|done]. split; cbn.
    + apply Forall_app. split; [done|]. by apply Forall_singleton.
    + apply Forall_app. split; [done|]. by apply Forall_singleton.
Qed.

Lemma release_log_lines (h : nat) :
  Forall (fun e : nat * Op => e.1 <> 31) (release_log h).
Proof.
  unfold release_log.
  repeat (apply Forall_cons; split; [cbn; lia|]). apply Forall_nil_2.
Qed.

Lemma before_snapshot_unmount (s : State) :
  before_snapshot s -> before_snapshot (step Unmount s).
Proof.
  intros [Ht Hl]. unfold step. destruct (destroy_hook s); [|done].
  pose proof (cleanup_tasks (set_destroy_hook false s)) as Etasks.
  destruct (channel s) as [h|] eqn:Hc.
  - destruct (cleanup_log (set_destroy_hook false s) h Hc) as [_ Elog].
    split.
    + by rewrite Etasks.
    + rewrite Elog. apply Forall_app. split; [done|].
      apply release_log_lines.
  - unfold exec. by rewrite cleanup_null.
Qed.

Lemma before_snapshot_resolve (p : nat) (v : list Message) (s : State) :
  before_snapshot s -> p <> 0 -> before_snapshot (step (Resolve p v) s).
Proof.
  intros [Ht Hl] Hp. break_state s. unfold settle, exec. cbn.
  destruct (lookup_task p ts) as [k|] eqn:Hk; [|done].
  apply lookup_task_elem in Hk.
  pose proof Ht as Ht'. rewrite Forall_forall in Ht'.
  destruct (Ht' _ Hk) as [Hk1 Hk2]. cbn in Hk1, Hk2.
  destruct k; cbn.
  - by specialize (Hk2 eq_refl).
  - done.
  - split; cbn.
    + by apply Forall_remove_task.
    + apply Forall_app. split; [done|]. by apply Forall_singleton.
Qed.

Lemma before_snapshot_reject (p : nat) (s : State) :
  before_snapshot s -> before_snapshot (step (Reject p) s).
Proof.
  intros [Ht Hl]. break_state s. unfold settle, exec. cbn.
  destruct (lookup_task p ts) as [k|]; [|done].
  split; cbn; [|done]. by apply Forall_remove_task.
Qed.

Lemma before_snapshot_click (s : State) (text : string) :
  before_snapshot s ->
  before_snapshot (exec sendMessage s) /\
  before_snapshot (exec (update text) s).
Proof.
  intros [Ht Hl]. break_state s. unfold exec.
  destruct ch as [h|]; cbn; [|done].
  split; (split; cbn; [done|]);
    (apply Forall_app; split; [done|]; by apply Forall_singleton).
Qed.

Lemma before_snapshot_step (e : Event) (s : State) :
  before_snapshot s -> keeps_pending 0 e = true ->
  before_snapshot (step e s).
Proof.
  intros Hs He. destruct e as [ | | h m | h m | p v | p | | ];
    try discriminate.
  - by apply before_snapshot_unmount.
  - cbn. unfold dispatch_message, exec.
    destruct (channels s !! h) as [c|]; [|done].
    apply (for_each_inv before_snapshot); [|done].
    intros l s'. apply before_snapshot_listener.
  - cbn. unfold dispatch_presence, exec.
    destruct (channels s !! h) as [c|]; [|done].
    apply (for_each_inv before_snapshot); [|done].
    intros al s'. apply before_snapshot_listener.
  - apply before_snapshot_resolve; [done|].
    intros ->. discriminate.
  - by apply before_snapshot_reject.
  - unfold step. destruct (destroy_hook s); [|done].
    exact (proj1 (before_snapshot_click s "hello" Hs)).
  - unfold step. destruct (destroy_hook s); [|done].
    exact (proj2 (before_snapshot_click s "hello" Hs)).
Qed.

Lemma before_snapshot_run (evs : list Event) (s : State) :
  before_snapshot s -> forallb (keeps_pending 0) evs = true ->
  before_snapshot (run evs s).
Proof.
  revert s. induction evs as [|e evs IH]; intros s Hs Hevs; cbn; [done|].
  cbn in Hevs. apply andb_prop in Hevs as [He Hevs].
  apply IH; [|done]. by apply before_snapshot_step.
Qed.

Lemma before_snapshot_mount : before_snapshot (step Mount init).
Proof.
  split; cbn.
  - apply Forall_singleton. by split.
  - repeat (apply Forall_cons; split; [cbn; lia|]). apply Forall_nil_2.
Qed.

Lemma lookup_task_remove_ne (p q : nat) (ts : list (nat * Cont)) :
  p <> q -> lookup_task q (remove_task p ts) = lookup_task q ts.
Proof.
  intros Hpq. unfold remove_task.
  induction ts as [|[r k] ts IH]; [done|].
  rewrite filter_cons. cbn. repeat case_decide; cbn; subst;
    repeat case_decide; try congruence.
Qed.

Lemma lookup_task_remove_fresh (p np : nat) (ts : list (nat * Cont)) :
  fresh np ts -> lookup_task np (remove_task p ts) = None.
Proof. intros H. by apply lookup_task_fresh, fresh_remove. Qed.

Lemma entry_waiting_listener (l : Listener) (m : Message) (s : State) :
  entry_waiting s -> entry_waiting (exec (call_listener l m) s).
Proof.
  intros (Hk & Hc & Hf). break_state s. subst ch.
  destruct l; unfold exec, entry_waiting; cbn; [done|].
  rewrite lookup_task_app, Hk. auto using fresh_await.
Qed.

Lemma cleanup_channel (s : State) : channel (exec cleanup s) = channel s.
Proof. break_state s. by destruct ch. Qed.

Lemma cleanup_next_promise (s : State) :
  next_promise (exec cleanup s) = next_promise s.
Proof. break_state s. by destruct ch. Qed.

Lemma entry_waiting_step (e : Event) (s : State) :
  entry_waiting s -> keeps_waiting e = true -> entry_waiting (step e s).
Proof.
  intros Hs He. destruct e as [ | | h m | h m | p v | p | | ];
    try discriminate.
  - destruct Hs as (Hk & Hc & Hf). unfold step, entry_waiting.
    destruct (destroy_hook s); [|done].
    by rewrite cleanup_tasks, cleanup_channel, cleanup_next_promise.
  - cbn. unfold dispatch_message, exec.
    destruct (channels s !! h) as [c|]; [|done].
    apply (for_each_inv entry_waiting); [|done].
    intros l s'. apply entry_waiting_listener.
  - cbn. unfold dispatch_presence, exec.
    destruct (channels s !! h) as [c|]; [|done].
    apply (for_each_inv entry_waiting); [|done].
    intros al s'. apply entry_waiting_listener.
  - cbn in He. apply negb_true_iff, Nat.eqb_neq in He.
    destruct Hs as (Hk & Hc & Hf). break_state s. subst ch.
    unfold settle, exec, entry_waiting. cbn.
    destruct (lookup_task p ts) as [[]|]; cbn;
      rewrite ?lookup_task_app, ?lookup_task_remove_ne, ?Hk by done;
      auto using fresh_await, fresh_remove.
  - cbn in He. apply negb_true_iff, Nat.eqb_neq in He.
    destruct Hs as (Hk & Hc & Hf). break_state s. subst ch.
    unfold settle, exec, entry_waiting. cbn.
    destruct (lookup_task p ts); cbn;
      rewrite ?lookup_task_remove_ne, ?Hk by done; auto using fresh_remove.
  - destruct Hs as (Hk & Hc & Hf). break_state s. subst ch. by destruct dh.
  - destruct Hs as (Hk & Hc & Hf). break_state s. subst ch. by destruct dh.
Qed.

Lemma entry_waiting_run (evs : list Event) (s : State) :
  entry_waiting s -> forallb keeps_waiting evs = true ->
  entry_waiting (run evs s).
Proof.
  revert s. induction evs as [|e evs IH]; intros s Hs Hevs; cbn; [done|].
  cbn in Hevs. apply andb_prop in Hevs as [He Hevs].
  apply IH; [|done]. by apply entry_waiting_step.
Qed.

Lemma entry_waiting_mount : entry_waiting (step Mount init).
Proof.
  unfold entry_waiting. rewrite mount_state. cbn.
  split; [done|]. split; [done|]. apply Forall_singleton. cbn. lia.
Qed.

(** What happens when the entry completes, and then the fetch. *)
Lemma entry_completes (s : State) (v w : list Message) :
  entry_waiting s ->
  log (step (Resolve 0 v) s) = log s ++ [(31, PresenceGet 0)] /\
  log (run [Resolve 0 v; Resolve (next_promise s) w] s) =
    log s ++ [(31, PresenceGet 0); (31, AssignPresenceData w)] /\
  presenceData (run [Resolve 0 v; Resolve (next_promise s) w] s) = w.
Proof.
  intros (Hk & Hc & Hf). break_state s. subst ch.
  unfold settle, exec. cbn. rewrite Hk. cbn. split; [done|].
  rewrite lookup_task_app, lookup_task_remove_fresh by done. cbn.
  case_decide; [|done]. cbn. split; [|done]. by rewrite <- app_assoc.
Qed.

(** C8: mounting calls [presence.enter] with the payload of line 30 and
    suspends.  As long as that promise has not been fulfilled, nothing of
    line 31 happens: the snapshot is neither fetched nor assigned.  When it
    is fulfilled the fetch is issued, and when the fetch completes its
    result is assigned to [presenceData]. *)
Theorem C8_snapshot_after_entry (evs : list Event) (v w : list Message) :
  forallb (keeps_pending 0) evs = true ->
  (last (log (step Mount init)) = Some (30, PresenceEnter 0 "") /\
   tasks (step Mount init) = [(0, K_iife_after_enter)]) /\
  (Forall (fun e => e.1 <> 31) (log (run (Mount :: evs) init)) /\
   Forall (fun t => t.2 <> K_iife_assign) (tasks (run (Mount :: evs) init))) /\
  (forallb keeps_waiting evs = true ->
   log (step (Resolve 0 v) (run (Mount :: evs) init)) =
     log (run (Mount :: evs) init) ++ [(31, PresenceGet 0)] /\
   log (run [Resolve 0 v;
             Resolve (next_promise (run (Mount :: evs) init)) w]
            (run (Mount :: evs) init)) =
     log (run (Mount :: evs) init) ++
     [(31, PresenceGet 0); (31, AssignPresenceData w)] /\
   presenceData
     (run [Resolve 0 v; Resolve (next_promise (run (Mount :: evs) init)) w]
          (run (Mount :: evs) init)) = w).
Proof.
  intros Hevs. split; [split; vm_compute; reflexivity|]. split.
  - destruct (before_snapshot_run evs _ before_snapshot_mount Hevs)
      as [Ht Hl].
    split; [exact Hl|]. eapply Forall_impl; [exact Ht|]. by intros t [? _].
  - intros Hw. apply entry_completes.
    cbn [run]. apply entry_waiting_run; [apply entry_waiting_mount|done].
Qed.

Lemma C8_witness :
  forallb (keeps_pending 0) sample_wait = true /\
  forallb keeps_waiting sample_wait = true /\
  Forall (fun e => e.1 <> 31) (log (run (Mount :: sample_wait) init)) /\
  presenceData
    (run [Resolve 0 []; Resolve 2 [mkMessage "someid" "enter" ""]]
         (run (Mount :: sample_wait) init)) =
    [mkMessage "someid" "enter" ""].
Proof.
  split; [reflexivity|]. split; [reflexivity|].
  pose proof (C8_snapshot_after_entry sample_wait []
                [mkMessage "someid" "enter" ""] eq_refl) as H.
  split.
  - exact (proj1 (proj1 (proj2 H))).
  - exact (proj2 (proj2 (proj2 (proj2 H) eq_refl))).
Defined.


(** ** What events leave alone *)

Lemma frame_refl (e : Event) (s : State) : frame e s s.
Proof. by repeat split. Qed.

Lemma frame_trans (e : Event) (s1 s2 s3 : State) :
  frame e s1 s2 -> frame e s2 s3 -> frame e s1 s3.
Proof.
  intros (Hm & Hc & Hcs) (Hm' & Hc' & Hcs'). split; [by etrans|]. split.
  - intros He. by rewrite Hc', Hc.
  - intros He. by rewrite Hcs', Hcs.
Qed.

Lemma frame_listener (e : Event) (l : Listener) (m : Message) (s : State) :
  frame e s (exec (call_listener l m) s).
Proof.
  break_state s. destruct l; unfold exec, frame; cbn.
  - split; [by apply prefix_app_r|done].
  - destruct ch; by repeat split.
Qed.

Lemma frame_for_each {A} (e : Event) (f : A -> Js unit) (l : list A)
    (s : State) :
  (forall x s', frame e s' (exec (f x) s')) ->
  frame e s (exec (for_each f l) s).
Proof.
  intros Hf. apply (for_each_inv (frame e s)); [|apply frame_refl].
  intros x s' Hs'. eapply frame_trans; [exact Hs'|apply Hf].
Qed.

Lemma onMount_log (s : State) :
  log (exec onMount s) = log s ++ mount_log (length (channels s)).
Proof. break_state s. unfold exec. cbn. by rewrite <- !app_assoc. Qed.

Lemma onMount_messages (s : State) : messages (exec onMount s) = messages s.
Proof. by break_state s. Qed.

Lemma onMount_tasks (s : State) :
  tasks (exec onMount s) = tasks s ++ [(next_promise s, K_iife_after_enter)].
Proof. by break_state s. Qed.

Lemma cleanup_channels_hook (s : State) (b : bool) :
  channel (exec cleanup (set_destroy_hook b s)) = channel s /\
  messages (exec cleanup (set_destroy_hook b s)) = messages s.
Proof. break_state s. by destruct ch. Qed.

Lemma step_frame (e : Event) (s : State) : frame e s (step e s).
Proof.
  destruct e as [ | | h m | h m | p v | p | | ].
  - unfold step. destruct (channel s); [apply frame_refl|].
    split; [by rewrite onMount_messages|]. by split.
  - unfold step. destruct (destroy_hook s); [|apply frame_refl].
    destruct (cleanup_channels_hook s false) as [Hc Hm].
    split; [by rewrite Hm|]. by split.
  - cbn. unfold dispatch_message, exec.
    destruct (channels s !! h) as [c|]; [|apply frame_refl].
    apply frame_for_each. intros l s'. apply frame_listener.
  - cbn. unfold dispatch_presence, exec.
    destruct (channels s !! h) as [c|]; [|apply frame_refl].
    apply frame_for_each. intros al s'. apply frame_listener.
  - break_state s. unfold settle, exec, frame. cbn.
    destruct (lookup_task p ts) as [[]|]; cbn; [destruct ch|..];
      by repeat split.
  - break_state s. unfold settle, exec, frame. cbn.
    destruct (lookup_task p ts); by repeat split.
  - break_state s. unfold exec, frame. destruct dh, ch; by repeat split.
  - break_state s. unfold exec, frame. destruct dh, ch; by repeat split.
Qed.

(** X1: in the life of a component instance [messages] only ever grows at
    its end: from any state, no traffic, click, clean-up or late event
    removes, replaces or reorders a message that is already there. *)
Theorem messages_only_grow (evs : list Event) (s : State) :
  no_mount evs = true ->
  messages s `prefix_of` messages (run evs s).
Proof.
  revert s. induction evs as [|e evs IH]; intros s Hevs; cbn; [done|].
  cbn in Hevs. apply andb_prop in Hevs as [He Hevs].
  etrans; [|by apply IH]. apply (step_frame e s).
Qed.

Lemma messages_only_grow_witness :
  no_mount (click_traffic ++ Unmount :: late_traffic) = true /\
  messages (run (Mount :: settled_traffic) init) `prefix_of`
  messages (run (click_traffic ++ Unmount :: late_traffic)
                (run (Mount :: settled_traffic) init)).
Proof.
  split; [reflexivity|].
  exact (messages_only_grow (click_traffic ++ Unmount :: late_traffic)
           (run (Mount :: settled_traffic) init) eq_refl).
Defined.

(** X2: [channel] is assigned by [onMount] only.  No other event changes
    it; in particular the clean-up function does not reset it to [null]. *)
Theorem channel_assigned_only_by_mount (evs : list Event) (s : State) :
  no_mount evs = true -> channel (run evs s) = channel s.
Proof.
  revert s. induction evs as [|e evs IH]; intros s Hevs; cbn; [done|].
  cbn in Hevs. apply andb_prop in Hevs as [He Hevs].
  apply negb_true_iff in He. rewrite (IH _ Hevs).
  by apply (step_frame e s).
Qed.

Lemma channel_assigned_only_by_mount_witness :
  no_mount (sample_traffic ++ Unmount :: late_traffic) = true /\
  channel (run (sample_traffic ++ Unmount :: late_traffic)
               (step Mount init)) = Some 0.
Proof.
  split; [reflexivity|].
  exact (channel_assigned_only_by_mount
           (sample_traffic ++ Unmount :: late_traffic) (step Mount init)
           eq_refl).
Defined.

(** X3: the listener registrations of every channel change only when the
    component is mounted or destroyed.  Messages, presence events, promise
    settlements and clicks leave them as they are. *)
Theorem registrations_change_only_in_lifecycle
    (evs : list Event) (s : State) :
  no_lifecycle evs = true -> channels (run evs s) = channels s.
Proof.
  revert s. induction evs as [|e evs IH]; intros s Hevs; cbn; [done|].
  cbn in Hevs. apply andb_prop in Hevs as [He Hevs].
  apply negb_true_iff in He. rewrite (IH _ Hevs).
  by apply (step_frame e s).
Qed.

Lemma registrations_change_only_in_lifecycle_witness :
  no_lifecycle sample_traffic = true /\
  channels (run sample_traffic (step Mount init)) = [mounted_channel].
Proof.
  split; [reflexivity|].
  exact (registrations_change_only_in_lifecycle sample_traffic
           (step Mount init) eq_refl).
Defined.

(** ** Presence actions the script did not subscribe to *)

Lemma presence_action_false (a : string) :
  presence_action a = false ->
  a <> "enter" /\ a <> "leave" /\ a <> "update".
Proof.
  unfold presence_action. cbn. rewrite !orb_false_iff, !String.eqb_neq.
  tauto.
Qed.

Lemma other_action_mounted (s : State) (h : nat) (m : Message) :
  Mounted s -> presence_action (name m) = false ->
  step (PresenceEvent h m) s = s.
Proof.
  intros HM Ha. apply presence_action_false in Ha as (H1 & H2 & H3).
  break_state s. use_mounted HM. unfold dispatch_presence, exec.
  destruct h as [|[|h]]; cbn; [|done..].
  repeat case_decide; try congruence; done.
Qed.

(** X4: while mounted, a presence event whose action is none of "enter",
    "leave", "update" is ignored: no fetch is started and nothing
    changes. *)
Theorem other_presence_actions_ignored
    (before : list Event) (h : nat) (m : Message) :
  no_lifecycle before = true ->
  presence_action (name m) = false ->
  step (PresenceEvent h m) (run (Mount :: before) init) =
  run (Mount :: before) init.
Proof.
  intros Hb Ha. apply other_action_mounted; [|done].
  cbn [run]. by destruct (mounted_run before _ mounted_after_mount Hb).
Qed.

Lemma other_presence_actions_ignored_witness :
  no_lifecycle sample_traffic = true /\
  presence_action (name (mkMessage "b" "present" "")) = false /\
  step (PresenceEvent 0 (mkMessage "b" "present" ""))
       (run (Mount :: sample_traffic) init) =
  run (Mount :: sample_traffic) init.
Proof.
  split; [reflexivity|]. split; [reflexivity|].
  exact (other_presence_actions_ignored sample_traffic 0
           (mkMessage "b" "present" "") eq_refl eq_refl).
Defined.

(** ** Fetches that complete out of order *)

Lemma presence_event_state (s : State) (m : Message) :
  Mounted s -> presence_action (name m) = true ->
  step (PresenceEvent 0 m) s =
  set_next_promise (S (next_promise s))
    (set_tasks (tasks s ++ [(next_promise s, K_updatePresence)])
       (set_log (log s ++ [(22, PresenceGet 0)]) s)).
Proof.
  intros HM Ha. break_state s. use_mounted HM.
  destruct m as [c a d]. cbn in *. unfold dispatch_presence, exec.
  destruct (presence_action_cases a Ha) as [ -> | [ -> | -> ] ]; cbn;
    repeat case_decide; try congruence; done.
Qed.

Lemma resolve_updatePresence (s : State) (p : nat) (v : list Message) :
  lookup_task p (tasks s) = Some K_updatePresence ->
  presenceData (step (Resolve p v) s) = v /\
  tasks (step (Resolve p v) s) = remove_task p (tasks s) /\
  next_promise (step (Resolve p v) s) = next_promise s.
Proof.
  intros Hk. break_state s. unfold settle, exec. cbn. by rewrite Hk.
Qed.

Lemma race_mounted (s : State) (m1 m2 : Message) (v1 v2 : list Message) :
  Mounted s ->
  presence_action (name m1) = true -> presence_action (name m2) = true ->
  presenceData
    (run [PresenceEvent 0 m1; PresenceEvent 0 m2;
          Resolve (S (next_promise s)) v2] s) = v2 /\
  presenceData (run (race m1 m2 (next_promise s) v1 v2) s) = v1.
Proof.
  intros HM H1 H2. unfold race. cbn [run].
  pose proof (presence_event_state s m1 HM H1) as E1.
  destruct (mounted_step (PresenceEvent 0 m1) s HM eq_refl) as [HM1 _].
  pose proof (presence_event_state _ m2 HM1 H2) as E2.
  destruct HM as (_ & _ & _ & Hf).
  remember (step (PresenceEvent 0 m1) s) as s1 eqn:Hs1.
  remember (step (PresenceEvent 0 m2) s1) as s2 eqn:Hs2.
  assert (tasks s1 = tasks s ++ [(next_promise s, K_updatePresence)] /\
          next_promise s1 = S (next_promise s)) as [Et1 En1].
  { by rewrite E1. }
  assert (tasks s2 = (tasks s ++ [(next_promise s, K_updatePresence)]) ++
                     [(S (next_promise s), K_updatePresence)]) as Et.
  { rewrite E2. cbn. by rewrite Et1, En1. }
  assert (lookup_task (S (next_promise s)) (tasks s2) =
          Some K_updatePresence) as L2.
  { rewrite Et, lookup_task_app.
    rewrite (lookup_task_fresh (S (next_promise s))) by by apply fresh_await.
    cbn. by case_decide. }
  destruct (resolve_updatePresence s2 _ v2 L2) as (P3 & T3 & _).
  split; [done|].
  apply resolve_updatePresence. rewrite T3, lookup_task_remove_ne by lia.
  rewrite Et, !lookup_task_app, (lookup_task_fresh _ _ Hf). cbn.
  by case_decide.
Qed.

(** X5: snapshot fetches are not sequenced.  When two presence events
    follow each other and the second fetch completes before the first,
    [presenceData] first shows the newer result and is then overwritten by
    the older one: the fetch that completes last wins. *)
Theorem stale_snapshot_overwrites
    (before : list Event) (m1 m2 : Message) (v1 v2 : list Message) :
  no_lifecycle before = true ->
  presence_action (name m1) = true -> presence_action (name m2) = true ->
  presenceData
    (run [PresenceEvent 0 m1; PresenceEvent 0 m2;
          Resolve (S (next_promise (run (Mount :: before) init))) v2]
         (run (Mount :: before) init)) = v2 /\
  presenceData
    (run (race m1 m2 (next_promise (run (Mount :: before) init)) v1 v2)
         (run (Mount :: before) init)) = v1.
Proof.
  intros Hb H1 H2. apply race_mounted; [|done..].
  cbn [run]. by destruct (mounted_run before _ mounted_after_mount Hb).
Qed.

Lemma stale_snapshot_overwrites_witness :
  no_lifecycle settled_traffic = true /\
  presence_action (name (mkMessage "B" "enter" "")) = true /\
  presence_action (name (mkMessage "B" "leave" "")) = true /\
  presenceData
    (run (race (mkMessage "B" "enter" "") (mkMessage "B" "leave" "") 2
               [mkMessage "A" "enter" ""; mkMessage "B" "enter" ""]
               [mkMessage "A" "enter" ""])
         (run (Mount :: settled_traffic) init)) =
    [mkMessage "A" "enter" ""; mkMessage "B" "enter" ""].
Proof.
  split; [reflexivity|]. split; [reflexivity|]. split; [reflexivity|].
  exact (proj2 (stale_snapshot_overwrites settled_traffic
           (mkMessage "B" "enter" "") (mkMessage "B" "leave" "")
           [mkMessage "A" "enter" ""; mkMessage "B" "enter" ""]
           [mkMessage "A" "enter" ""] eq_refl eq_refl eq_refl)).
Defined.

(** ** A presence entry that fails *)

Lemma keeps_waiting_pending (evs : list Event) :
  forallb keeps_waiting evs = true -> forallb (keeps_pending 0) evs = true.
Proof.
  induction evs as [|e evs IH]; cbn; [done|].
  intros [He Hevs]%andb_prop. rewrite IH by done.
  destruct e; cbn in *; rewrite ?He; done.
Qed.

Lemma abandoned_listener (l : Listener) (m : Message) (s : State) :
  abandoned s -> abandoned (exec (call_listener l m) s).
Proof.
  intros [Ht Hl]. break_state s. destruct l; unfold exec; cbn.
  - split; [done|]. cbn.
    apply Forall_app. split; [done|]. by apply Forall_singleton.
  - destruct ch as [h|]; cbn; [|done]. split; cbn.
    + apply Forall_app. split; [done|]. by apply Forall_singleton.
    + apply Forall_app. split; [done|]. by apply Forall_singleton.
Qed.

Lemma abandoned_unmount (s : State) :
  abandoned s -> abandoned (step Unmount s).
Proof.
  intros [Ht Hl]. unfold step. destruct (destroy_hook s); [|done].
  pose proof (cleanup_tasks (set_destroy_hook false s)) as Etasks.
  destruct (channel s) as [h|] eqn:Hc.
  - destruct (cleanup_log (set_destroy_hook false s) h Hc) as [_ Elog].
    split.
    + by rewrite Etasks.
    + rewrite Elog. apply Forall_app. split; [done|].
      apply release_log_lines.
  - unfold exec. by rewrite cleanup_null.
Qed.

Lemma abandoned_settle (p : nat) (v : option (list Message)) (s : State) :
  abandoned s -> abandoned (exec (settle p v) s).
Proof.
  intros [Ht Hl]. break_state s. unfold settle, exec. cbn.
  destruct (lookup_task p ts) as [k|] eqn:Hk; [|done].
  apply lookup_task_elem in Hk.
  pose proof Ht as Ht'. rewrite Forall_forall in Ht'.
  specialize (Ht' _ Hk). cbn in Ht'. subst k.
  destruct v as [v|]; cbn.
  - split; cbn; [by apply Forall_remove_task|].
    apply Forall_app. split; [done|]. by apply Forall_singleton.
  - split; cbn; [by apply Forall_remove_task|done].
Qed.

Lemma abandoned_click (s : State) (text : string) :
  abandoned s ->
  abandoned (exec sendMessage s) /\ abandoned (exec (update text) s).
Proof.
  intros [Ht Hl]. break_state s. unfold exec.
  destruct ch as [h|]; cbn; [|done].
  split; (split; cbn; [done|]);
    (apply Forall_app; split; [done|]; by apply Forall_singleton).
Qed.

Lemma abandoned_step (e : Event) (s : State) :
  abandoned s -> is_mount e = false -> abandoned (step e s).
Proof.
  intros Hs He. destruct e as [ | | h m | h m | p v | p | | ];
    try discriminate.
  - by apply abandoned_unmount.
  - cbn. unfold dispatch_message, exec.
    destruct (channels s !! h) as [c|]; [|done].
    apply (for_each_inv abandoned); [|done].
    intros l s'. apply abandoned_listener.
  - cbn. unfold dispatch_presence, exec.
    destruct (channels s !! h) as [c|]; [|done].
    apply (for_each_inv abandoned); [|done].
    intros al s'. apply abandoned_listener.
  - by apply abandoned_settle.
  - by apply abandoned_settle.
  - unfold step. destruct (destroy_hook s); [|done].
    exact (proj1 (abandoned_click s "hello" Hs)).
  - unfold step. destruct (destroy_hook s); [|done].
    exact (proj2 (abandoned_click s "hello" Hs)).
Qed.

Lemma abandoned_run (evs : list Event) (s : State) :
  abandoned s -> no_mount evs = true -> abandoned (run evs s).
Proof.
  revert s. induction evs as [|e evs IH]; intros s Hs Hevs; cbn; [done|].
  cbn in Hevs. apply andb_prop in Hevs as [He Hevs].
  apply negb_true_iff in He. apply IH; [|done]. by apply abandoned_step.
Qed.

Lemma reject_entry (s : State) :
  before_snapshot s -> abandoned (step (Reject 0) s).
Proof.
  intros [Ht Hl]. break_state s. unfold settle, exec. cbn.
  assert (Forall (fun t : nat * Cont => t.2 = K_updatePresence)
                 (remove_task 0 ts)) as Hr.
  { unfold remove_task. rewrite Forall_forall in Ht. apply Forall_forall.
    intros [q k] [Hq Hin]%list_elem_of_filter. cbn in *.
    destruct (Ht _ Hin) as [H1 H2]. cbn in *.
    destruct k; [by specialize (H2 eq_refl)|done..]. }
  destruct (lookup_task 0 ts) as [k|] eqn:Hk; cbn.
  - by split.
  - split; [|done]. cbn.
    rewrite Forall_forall in Ht. apply Forall_forall.
    intros [q k] Hin. destruct (Ht _ Hin) as [H1 H2]. cbn in *.
    destruct k; [|done..]. specialize (H2 eq_refl). subst q.
    clear -Hk Hin. induction ts as [|[r k'] ts IH]; [by inversion Hin|].
    cbn in Hk. case_decide; [done|].
    inversion Hin; subst; [done|]. by apply IH.
Qed.

(** X6: when entering presence fails (the promise of line 30 is rejected),
    the async function of lines 25-32 is abandoned for good: whatever
    happens afterwards, also a late fulfilment of the same promise, the
    initial snapshot of line 31 is never fetched or assigned, and the only
    fetches in flight are those of [updatePresence]. *)
Theorem failed_entry_never_fetches (evs1 evs2 : list Event) :
  forallb keeps_waiting evs1 = true ->
  no_mount evs2 = true ->
  Forall (fun e => e.1 <> 31)
         (log (run (Mount :: evs1 ++ Reject 0 :: evs2) init)) /\
  Forall (fun t => t.2 = K_updatePresence)
         (tasks (run (Mount :: evs1 ++ Reject 0 :: evs2) init)).
Proof.
  intros H1 H2.
  change (Mount :: evs1 ++ Reject 0 :: evs2)
    with ((Mount :: evs1) ++ Reject 0 :: evs2).
  rewrite run_app. cbn [run].
  assert (before_snapshot (run evs1 (step Mount init))) as Hb.
  { apply before_snapshot_run; [apply before_snapshot_mount|].
    by apply keeps_waiting_pending. }
  destruct (abandoned_run evs2 _ (reject_entry _ Hb) H2) as [Ht Hl].
  by split.
Qed.

Lemma failed_entry_never_fetches_witness :
  forallb keeps_waiting sample_wait = true /\
  no_mount [PresenceEvent 0 (mkMessage "A" "enter" ""); Resolve 0 [];
            Resolve 2 []] = true /\
  Forall (fun e => e.1 <> 31)
    (log (run (Mount :: sample_wait ++ Reject 0 ::
               [PresenceEvent 0 (mkMessage "A" "enter" ""); Resolve 0 [];
                Resolve 2 []]) init)).
Proof.
  split; [reflexivity|]. split; [reflexivity|].
  exact (proj1 (failed_entry_never_fetches sample_wait
    [PresenceEvent 0 (mkMessage "A" "enter" ""); Resolve 0 []; Resolve 2 []]
    eq_refl eq_refl)).
Defined.

(** ** Presence events and clicks after release *)

Lemma released_presence_noop (s : State) (h : nat) (m : Message) :
  Released s -> step (PresenceEvent h m) s = s.
Proof.
  intros (Hc & Hcs & Hd). break_state s. subst.
  unfold dispatch_presence, exec. by destruct h as [|[|h]].
Qed.

Lemma released_kept (e : Event) (s : State) :
  Released s -> is_mount e = false -> Released (step e s).
Proof.
  intros (Hc & Hcs & Hd) He. break_state s. subst.
  destruct e as [ | | h m | h m | p v | p | | ]; try discriminate;
    unfold Released; cbn; try done.
  - destruct h as [|[|h]]; done.
  - destruct h as [|[|h]]; done.
  - unfold settle, exec. cbn. destruct (lookup_task p ts) as [[]|]; done.
  - unfold settle, exec. cbn. by destruct (lookup_task p ts).
Qed.

Lemma released_erase_presence (evs : list Event) (s : State) :
  Released s -> no_mount evs = true ->
  run evs s = run (without_presence evs) s.
Proof.
  revert s. induction evs as [|e evs IH]; intros s HR Hevs; [done|].
  cbn in Hevs. apply andb_prop in Hevs as [He Hevs].
  apply negb_true_iff in He.
  pose proof (released_kept e s HR He) as HR'.
  destruct e; try discriminate; cbn [run without_presence List.filter
    is_presence_event negb]; try (by apply IH).
  rewrite released_presence_noop by done. by apply IH.
Qed.

(** X7: once the clean-up has run, presence events are dead: in any
    sequence of later events (without a new mount) they can be struck out
    without changing the resulting state, even while fetches are still in
    flight. *)
Theorem presence_events_dead_after_release (before late : list Event) :
  no_lifecycle before = true ->
  no_mount late = true ->
  run late (released before) = run (without_presence late) (released before).
Proof.
  intros Hb Hl. apply released_erase_presence; [|done].
  by destruct (released_spec before Hb) as (HR & _).
Qed.

Lemma presence_events_dead_after_release_witness :
  no_lifecycle sample_traffic = true /\
  no_mount late_traffic = true /\
  run late_traffic (released sample_traffic) =
  run [Resolve 2 []; ClickSend; ClickUpdate; Unmount; Reject 0]
      (released sample_traffic).
Proof.
  split; [reflexivity|]. split; [reflexivity|].
  exact (presence_events_dead_after_release sample_traffic late_traffic
           eq_refl eq_refl).
Defined.

(** ** The calls the buttons make *)

Lemma user_calls_app (l1 l2 : list (nat * Op)) :
  List.filter is_user_call (l1 ++ l2) =
  List.filter is_user_call l1 ++ List.filter is_user_call l2.
Proof. apply List.filter_app. Qed.

Lemma user_calls_listener (l : Listener) (m : Message) (s : State) :
  List.filter is_user_call (log (exec (call_listener l m) s)) =
  List.filter is_user_call (log s).
Proof.
  break_state s. destruct l; unfold exec; cbn.
  - by rewrite user_calls_app, app_nil_r.
  - destruct ch; cbn; [|done]. by rewrite user_calls_app, app_nil_r.
Qed.

Lemma user_calls_step (e : Event) (s : State) :
  Mounted s -> lifecycle e = false ->
  List.filter is_user_call (log (step e s)) =
  List.filter is_user_call (log s) ++ user_call e.
Proof.
  intros (Hc & _ & Hd & _) He. destruct e as [ | | h m | h m | p v | p | | ];
    try discriminate; cbn [user_call]; rewrite ?app_nil_r.
  - cbn. unfold dispatch_message, exec.
    destruct (channels s !! h) as [c|]; [|done].
    apply (for_each_inv (fun s' => List.filter is_user_call (log s') =
                                   List.filter is_user_call (log s)));
      [|done].
    intros l s' <-. apply user_calls_listener.
  - cbn. unfold dispatch_presence, exec.
    destruct (channels s !! h) as [c|]; [|done].
    apply (for_each_inv (fun s' => List.filter is_user_call (log s') =
                                   List.filter is_user_call (log s)));
      [|done].
    intros al s' <-. apply user_calls_listener.
  - break_state s. subst ch. unfold settle, exec. cbn.
    destruct (lookup_task p ts) as [[]|]; cbn;
      by rewrite ?user_calls_app, ?app_nil_r.
  - break_state s. unfold settle, exec. cbn.
    by destruct (lookup_task p ts).
  - unfold step, exec. rewrite Hd, sendMessage_spec, Hc. cbn.
    by rewrite user_calls_app.
  - unfold step, exec. rewrite Hd, update_spec, Hc. cbn.
    by rewrite user_calls_app.
Qed.

Lemma user_calls_run (evs : list Event) (s : State) :
  Mounted s -> no_lifecycle evs = true ->
  List.filter is_user_call (log (run evs s)) =
  List.filter is_user_call (log s) ++ user_calls evs.
Proof.
  revert s. induction evs as [|e evs IH]; intros s HM Hevs; cbn.
  - by rewrite app_nil_r.
  - cbn in Hevs. apply andb_prop in Hevs as [He Hevs].
    apply negb_true_iff in He.
    destruct (mounted_step e s HM He) as [HM' _].
    by rewrite IH, user_calls_step, <- app_assoc.
Qed.

(** X8: while the component is mounted, every click on "Send Message"
    makes exactly one [channel.publish] call and every click on "Update
    status" exactly one [channel.presence.update("hello")] call, in the
    order of the clicks; nothing else publishes or updates presence. *)
Theorem one_call_per_click (evs : list Event) :
  no_lifecycle evs = true ->
  List.filter is_user_call (log (run (Mount :: evs) init)) = user_calls evs.
Proof.
  intros Hevs. cbn [run].
  rewrite user_calls_run by (done || apply mounted_after_mount).
  by rewrite mount_state.
Qed.

Lemma one_call_per_click_witness :
  no_lifecycle click_traffic = true /\
  List.filter is_user_call (log (run (Mount :: click_traffic) init)) =
  [(47, Publish 0 "test-message" "message text");
   (51, PresenceUpdate 0 "hello");
   (47, Publish 0 "test-message" "message text")].
Proof.
  split; [reflexivity|].
  exact (one_call_per_click click_traffic eq_refl).
Defined.

(** ** When the presence list changes *)

Lemma presenceData_listener (l : Listener) (m : Message) (s : State) :
  presenceData (exec (call_listener l m) s) = presenceData s.
Proof. break_state s. destruct l; [done|]. by destruct ch. Qed.

Lemma onMount_presenceData (s : State) :
  presenceData (exec onMount s) = presenceData s.
Proof. by break_state s. Qed.

Lemma presenceData_step (e : Event) (s : State) :
  may_assign_presence e = false ->
  presenceData (step e s) = presenceData s.
Proof.
  intros He. destruct e as [ | | h m | h m | p v | p | | ];
    try discriminate.
  - unfold step. destruct (channel s); [done|apply onMount_presenceData].
  - cbn. unfold dispatch_message, exec.
    destruct (channels s !! h) as [c|]; [|done].
    apply (for_each_inv (fun s' => presenceData s' = presenceData s));
      [|done].
    intros l s' <-. apply presenceData_listener.
  - cbn. unfold dispatch_presence, exec.
    destruct (channels s !! h) as [c|]; [|done].
    apply (for_each_inv (fun s' => presenceData s' = presenceData s));
      [|done].
    intros al s' <-. apply presenceData_listener.
  - break_state s. unfold settle, exec. cbn.
    by destruct (lookup_task p ts).
  - unfold step, exec. destruct (destroy_hook s); [|done].
    rewrite sendMessage_spec. by destruct (channel s).
  - unfold step, exec. destruct (destroy_hook s); [|done].
    rewrite update_spec. by destruct (channel s).
Qed.

(** X9: [presenceData] is assigned only when a promise is fulfilled or when
    the component is destroyed.  Mounting, message deliveries, rejected
    promises, clicks and the presence events themselves leave the displayed
    list as it is: a presence event only starts a fetch. *)
Theorem presence_list_changes_only_on_completion
    (evs : list Event) (s : State) :
  no_assignment evs = true -> presenceData (run evs s) = presenceData s.
Proof.
  revert s. induction evs as [|e evs IH]; intros s Hevs; cbn; [done|].
  cbn in Hevs. apply andb_prop in Hevs as [He Hevs].
  apply negb_true_iff in He. by rewrite (IH _ Hevs), presenceData_step.
Qed.

Lemma presence_list_changes_only_on_completion_witness :
  no_assignment [PresenceEvent 0 (mkMessage "B" "enter" "");
                 PresenceEvent 0 (mkMessage "A" "leave" ""); Reject 2;
                 ClickUpdate] = true /\
  presenceData
    (run [PresenceEvent 0 (mkMessage "B" "enter" "");
          PresenceEvent 0 (mkMessage "A" "leave" ""); Reject 2; ClickUpdate]
         (run (Mount :: settled_traffic) init)) =
  [mkMessage "A" "enter" ""].
Proof.
  split; [reflexivity|].
  exact (presence_list_changes_only_on_completion
    [PresenceEvent 0 (mkMessage "B" "enter" "");
     PresenceEvent 0 (mkMessage "A" "leave" ""); Reject 2; ClickUpdate]
    (run (Mount :: settled_traffic) init) eq_refl).
Defined.

Lemma one_registration_per_kind_witness :
  no_lifecycle sample_traffic = true /\
  exists c, channels (run (Mount :: sample_traffic) init) = [c] /\
    length (subscriptions c) = 1 /\
    length (filter (fun al => al.1 = "enter") (presence_subscriptions c)) <= 1.
Proof.
  split; [reflexivity|].
  exact (one_registration_per_kind sample_traffic "enter" eq_refl).
Defined.
